(** * pdapt_lib.machine_learning.nlp: n-grams, skip-grams, co-occurrence
      counts, token tables, tf-idf, stemming and the normaliser pipeline.

    The Python functions of [nlp.py] are embedded as Rocq functions.
    Python [str] is [string] (ASCII), Python [int] is [Z], a Python list
    is [list], a [dict] whose order is irrelevant is a [gmap], a [dict]
    that is iterated in insertion order is an association list, and a
    call that can raise returns a [result]. *)

From Stdlib Require Import ZArith Lia List Ascii String Bool Reals Lra Sorted Permutation.
From stdpp Require Import gmap strings list fin_maps.

Local Open Scope Z_scope.

(** ** Python primitives *)

Inductive exn : Type :=
| ZeroDivisionError
| IndexError
| ValueError
| NameError.

Inductive result (A : Type) : Type :=
| Ok (a : A)
| Raise (e : exn).
Arguments Ok {A} a.
Arguments Raise {A} e.

(** The error monad: [x ← m; k] runs [m] and stops at the first raise. *)
Global Instance result_bind : MBind result := λ A B f m,
  match m with
  | Ok a => f a
  | Raise e => Raise e
  end.
Global Instance result_ret : MRet result := λ A a, Ok a.

(** A comprehension [[f(x) for x in l]] whose body can raise. *)
Fixpoint traverse {A B : Type} (f : A → result B) (l : list A) : result (list B) :=
  match l with
  | [] => Ok []
  | x :: l' => y ← f x; ys ← traverse f l'; Ok (y :: ys)
  end.

(** [len(l)] as a Python integer. *)
Definition len {A : Type} (l : list A) : Z := Z.of_nat (length l).

(** [range(n)]: empty when [n <= 0]. *)
Definition py_range (n : Z) : list Z := map Z.of_nat (seq 0 (Z.to_nat n)).

(** [range(start, stop, step)]; a zero step raises [ValueError]. *)
Definition py_range3 (start stop step : Z) : result (list Z) :=
  if step =? 0 then Raise ValueError
  else
    let cnt := if 0 <? step then (stop - start + step - 1) / step
               else (start - stop - step - 1) / (- step) in
    Ok (map (fun t => start + Z.of_nat t * step) (seq 0 (Z.to_nat cnt))).

(** The bound of a slice: a negative index counts from the end, and
    both kinds are clipped to [0 .. len]. *)
Definition slice_bound (n i : Z) : Z :=
  if i <? 0 then Z.max 0 (i + n) else Z.min i n.

(** [l[lo:hi]]. *)
Definition py_slice {A : Type} (l : list A) (lo hi : Z) : list A :=
  let a := slice_bound (len l) lo in
  let b := slice_bound (len l) hi in
  firstn (Z.to_nat (b - a)) (skipn (Z.to_nat a) l).

(** [l[i]]: a negative index counts from the end; out of range raises. *)
Definition py_index {A : Type} (l : list A) (i : Z) : result A :=
  let j := if i <? 0 then i + len l else i in
  if j <? 0 then Raise IndexError
  else match nth_error l (Z.to_nat j) with
       | Some x => Ok x
       | None => Raise IndexError
       end.

(** [l.count(x)] on a list of strings. *)
Fixpoint list_count (x : string) (l : list string) : Z :=
  match l with
  | [] => 0
  | y :: l' => (if String.eqb y x then 1 else 0) + list_count x l'
  end.

(** [x in l] on a list of strings. *)
Definition list_mem (x : string) (l : list string) : bool :=
  existsb (fun y => String.eqb y x) l.

(** [enumerate(l)], counting from [i]. *)
Fixpoint enumerate_from {A : Type} (i : Z) (l : list A) : list (Z * A) :=
  match l with
  | [] => []
  | x :: l' => (i, x) :: enumerate_from (i + 1) l'
  end.
Definition enumerate {A : Type} (l : list A) : list (Z * A) := enumerate_from 0 l.

(** [sum(l)] of integers. *)
Definition py_sum (l : list Z) : Z := fold_left Z.add l 0.

(** [s.split(sep)] for a one-character separator: every occurrence of
    the separator cuts, so the result has one more piece than there are
    separators (and [""] splits into [[""]]). *)
Fixpoint split_on (sep : ascii) (s : string) : list string :=
  match s with
  | EmptyString => [EmptyString]
  | String c s' =>
      if Ascii.eqb c sep then EmptyString :: split_on sep s'
      else match split_on sep s' with
           | w :: ws => String c w :: ws
           | [] => [String c EmptyString]
           end
  end.

(** [sep.join(ws)]. *)
Fixpoint join (sep : string) (ws : list string) : string :=
  match ws with
  | [] => EmptyString
  | [w] => w
  | w :: ws' => String.append w (String.append sep (join sep ws'))
  end.

Definition space : ascii := " "%char.
Definition words_of (s : string) : list string := split_on space s.

(** ** Models: n-grams and skip-grams *)

(** [n_gram(n, s)]. *)
Definition n_gram (n : Z) (s : string) : list string :=
  let words := words_of s in
  let ngrams := map (fun i => py_slice words i (i + n))
                    (py_range (len words - (n - 1))) in
  map (join " ") ngrams.

(** [wordCount(text)]: the length of the space-split word sequence. *)
Definition wordCount (s : string) : Z := len (words_of s).

(** [skip_gram(k, n, s)]. The comprehension indexes [words], so an index
    out of range, or a zero step of the inner range, raises. *)
Definition skip_gram (k n : Z) (s : string) : result (list string) :=
  let words := words_of s in
  sgrams ← traverse (fun i =>
              w0 ← py_index words i ;
              js ← py_range3 1 (n + k) (k + 1) ;
              ws ← traverse (fun j => py_index words (i + k + j)) js ;
              Ok ([w0] ++ ws))
            (py_range (len words - (1 + k) * (n - 1))) ;
  Ok (map (join " ") sgrams).

(** The skip-grams as the specification words them: for every start [i]
    with [i + (n-1)(k+1) < L], the [n] words [word[i + t(k+1)]],
    [t = 0 .. n-1]. *)
Definition skip_gram_spec (k n : Z) (s : string) : list string :=
  let words := words_of s in
  map (fun i =>
         join " " (map (fun t => nth (Z.to_nat (i + t * (k + 1))) words EmptyString)
                       (py_range n)))
      (py_range (len words - (n - 1) * (k + 1))).

(** ** Co-occurrence counts *)

(** [get_cooccurance_count(window, target, neighbor, sentences)]. *)
Definition get_cooccurance_count (window : Z) (target neighbor : string)
    (sentences : list (list string)) : Z :=
  fold_left
    (fun count s =>
       count + py_sum (map (fun iw : Z * string =>
                              let i := fst iw in
                              list_count neighbor
                                (py_slice s (i - window) i ++ py_slice s (i + 1) (i + 1 + window)))
                           (List.filter (fun iw : Z * string => String.eqb (snd iw) target)
                                   (enumerate s))))
    sentences 0.

(** The clipped window of the specification: the words at the positions
    [j] of [s] with [lo <= j < hi], both ends cut to the sentence. *)
Definition clipped {A : Type} (s : list A) (lo hi : Z) : list A :=
  let a := Z.max 0 lo in
  let b := Z.min (len s) hi in
  firstn (Z.to_nat (b - a)) (skipn (Z.to_nat a) s).

(** The count as the specification words it: for every position [i] of
    the target, the occurrences of the neighbor in [[i-w, i)] and
    [(i, i+w]], both clipped at the sentence boundaries. *)
Definition cooccurance_clipped (window : Z) (target neighbor : string)
    (sentences : list (list string)) : Z :=
  py_sum (map (fun s =>
     py_sum (map (fun iw : Z * string =>
                    let i := fst iw in
                    list_count neighbor (clipped s (i - window) i)
                    + list_count neighbor (clipped s (i + 1) (i + 1 + window)))
                 (List.filter (fun iw : Z * string => String.eqb (snd iw) target)
                         (enumerate s))))
     sentences).

(** The names that [nlp.py] binds at its top level: its imports and
    its functions. The module never imports numpy, so [np] is not one
    of them (nor is it a builtin). *)
Definition module_names : list string :=
  ["sum_of_squares"; "dot"; "factorial"; "re"; "defaultdict"; "reduce"; "math";
   "split_by_n"; "is_even"; "n_split"; "hamming_distance"; "expand";
   "standardize_abbreviations"; "simple_extract_sentences"; "find_sentence_start";
   "sentence_terminator"; "find_sentence_end"; "extract_sentences"; "lowercase";
   "uppercase_i"; "remove_numbers"; "remove_punctuation";
   "remove_string_punctuation"; "remove_stopwords"; "stem"; "stem_string";
   "tokenize"; "merge_tokens"; "mean_sentence_length"; "mean_words_in_sentence";
   "mean_token_occurance"; "mean_vocab_word_length"; "mean_corpus_word_length";
   "personal_pronoun_density"; "anagram"; "anagrams"; "anagram_vocab_density";
   "anagram_corpus_density"; "tfidf"; "n_gram"; "skip_gram"; "bigram_predict";
   "tokens"; "get_cooccurance_count"; "build_cooccurance_matrix"].

(** Reading a global name inside a function: a name that the module
    does not bind raises [NameError]. *)
Definition global_name (x : string) : result unit :=
  if list_mem x module_names then Ok tt else Raise NameError.

(** [build_cooccurance_matrix(window, tokens, sentences)]. Its first
    statement reads the global [np]; behind it, the cell [(i, j)] of the
    zero matrix is overwritten with the count of [tokens[j]] around
    [tokens[i]]. *)
Definition build_cooccurance_matrix (window : Z) (tokens : list string)
    (sentences : list (list string)) : result (list (list Z)) :=
  np ← global_name "np";
  Ok (map (fun token_i =>
             map (fun token_j => get_cooccurance_count window token_i token_j sentences)
                 tokens)
          tokens).

(** ** Token tables *)

(** [merge_tokens(a, b)]. Both loops overwrite [new_tokens[k]]; the
    order in which a dict is walked does not show in the result. *)
Definition merge_tokens (a b : gmap string Z) : gmap string Z :=
  let new_tokens :=
    map_fold (fun k v acc =>
                match b !! k with
                | Some bk => <[k := bk + v]> acc
                | None => <[k := v]> acc
                end) ∅ a in
  map_fold (fun k v acc =>
              match a !! k with
              | Some ak => <[k := ak + v]> acc
              | None => <[k := v]> acc
              end) new_tokens b.

(** [sum(d.values())]. *)
Definition sum_values (d : gmap string Z) : Z :=
  map_fold (fun _ v acc => acc + v) 0 d.

(** The count of a key, 0 when the key is absent. *)
Definition count_of (d : gmap string Z) (k : string) : Z := default 0 (d !! k).

(** ** Next-word prediction *)

(** [sorted(l, key=...)] is stable: among equal keys the earlier element
    stays first. Insertion from the right gives exactly that order. *)
Fixpoint insert_sorted {A : Type} (key : A → Z) (x : A) (l : list A) : list A :=
  match l with
  | [] => [x]
  | y :: l' => if key x <=? key y then x :: y :: l' else y :: insert_sorted key x l'
  end.
Fixpoint sorted {A : Type} (key : A → Z) (l : list A) : list A :=
  match l with
  | [] => []
  | x :: l' => insert_sorted key x (sorted key l')
  end.

(** The [for] loop of [bigram_predict] with its [break]. *)
Fixpoint bigram_scan (start_word : string) (token_tuples : list (string * Z))
    : result string :=
  match token_tuples with
  | [] => Ok EmptyString
  | i :: rest =>
      let ngram := words_of (fst i) in
      w ← py_index ngram (-2);
      if String.eqb start_word w then py_index ngram (-1)
      else bigram_scan start_word rest
  end.

(** [bigram_predict(t, s)]; [t.items()] is the table in insertion order. *)
Definition bigram_predict (t : list (string * Z)) (s : string) : result string :=
  start_word ← py_index (words_of s) (-1);
  let token_tuples := sorted (fun x : string * Z => - snd x) t in
  bigram_scan start_word token_tuples.

(** ** Regular expressions, as Python's [re] runs them

    A backtracking matcher: alternatives are tried left to right, a
    greedy repetition tries one more round before it stops and a lazy one
    stops before it tries one more round, and the first way through the
    pattern that succeeds is the match. *)

Inductive regex : Type :=
| Eps
| Cls (p : ascii → bool)
| Cat (r1 r2 : regex)
| Alt (r1 r2 : regex)
| Star (greedy : bool) (r : regex)
| Bol
| Eol
| Behind (p : ascii → bool)
| Group (i : nat) (r : regex).

(** The position of the matcher: the text on the left (last character
    first), the text on the right, and the groups closed so far. *)
Record mstate : Type := MState {
  before : string;
  after : string;
  groups : list (nat * string)
}.

Definition newline : ascii := "010"%char.

(** The last [n] characters read, in reading order. *)
Fixpoint taken (n : nat) (rev_text acc : string) : string :=
  match n, rev_text with
  | S n', String c t => taken n' t (String c acc)
  | _, _ => acc
  end.

(** The text between two positions of one run. *)
Definition consumed (st st1 : mstate) : string :=
  taken (String.length (before st1) - String.length (before st)) (before st1) EmptyString.

Fixpoint exec (r : regex) (st : mstate) (k : mstate → option mstate)
    {struct r} : option mstate :=
  match r with
  | Eps => k st
  | Cls p =>
      match after st with
      | String c s' =>
          if p c then k (MState (String c (before st)) s' (groups st)) else None
      | EmptyString => None
      end
  | Cat r1 r2 => exec r1 st (fun st1 => exec r2 st1 k)
  | Alt r1 r2 =>
      match exec r1 st k with
      | Some m => Some m
      | None => exec r2 st k
      end
  | Star greedy r1 =>
      (fix rounds (fuel : nat) (st : mstate) {struct fuel} : option mstate :=
         match fuel with
         | O => k st
         | S fuel' =>
             let once_more (_ : unit) :=
               exec r1 st (fun st1 =>
                 if Nat.ltb (String.length (after st1)) (String.length (after st))
                 then rounds fuel' st1 else None) in
             if greedy then
               match once_more tt with
               | Some m => Some m
               | None => k st
               end
             else
               match k st with
               | Some m => Some m
               | None => once_more tt
               end
         end) (S (String.length (after st))) st
  | Bol =>
      match before st with
      | EmptyString => k st
      | _ => None
      end
  | Eol =>
      match after st with
      | EmptyString => k st
      | String c EmptyString => if Ascii.eqb c newline then k st else None
      | _ => None
      end
  | Behind p =>
      match before st with
      | String c _ => if p c then k st else None
      | EmptyString => None
      end
  | Group i r1 =>
      exec r1 st (fun st1 =>
        k (MState (before st1) (after st1) ((i, consumed st st1) :: groups st1)))
  end.

(** One attempt at a position. After an empty match the next attempt at
    the same position must not be empty again. *)
Definition attempt (r : regex) (st : mstate) (must_advance : bool) : option mstate :=
  exec r (MState (before st) (after st) []) (fun st1 =>
    if must_advance && Nat.eqb (String.length (after st1)) (String.length (after st))
    then None else Some st1).

Definition start_of (s : string) : mstate := MState EmptyString s [].

(** [pattern.match(s)]: a match at the start of [s], of any length. *)
Definition re_match (r : regex) (s : string) : bool :=
  match attempt r (start_of s) false with
  | Some _ => true
  | None => false
  end.

(** [re.sub(pattern, repl, s)] from a position on: the leftmost match is
    replaced and the scan goes on behind it; where nothing matches one
    character is copied. *)
Fixpoint sub_from (fuel : nat) (r : regex) (repl : string → string)
    (st : mstate) (must_advance : bool) : string :=
  match fuel with
  | O => after st
  | S fuel' =>
      match attempt r st must_advance with
      | Some st1 =>
          String.append (repl (consumed st st1))
            (sub_from fuel' r repl st1
               (Nat.eqb (String.length (after st1)) (String.length (after st))))
      | None =>
          match after st with
          | EmptyString => EmptyString
          | String c s' =>
              String c (sub_from fuel' r repl (MState (String c (before st)) s' []) false)
          end
      end
  end.

Definition re_sub (r : regex) (repl : string → string) (s : string) : string :=
  sub_from (2 * String.length s + 2) r repl (start_of s) false.

(** The text of group [i] of a match, [''] when the group took no part. *)
Definition group_text (i : nat) (st : mstate) : string :=
  match List.find (fun g : nat * string => Nat.eqb (fst g) i) (groups st) with
  | Some g => snd g
  | None => EmptyString
  end.

(** [re.findall(pattern, s)] for a pattern with two groups: the pairs of
    group texts of the matches, left to right. *)
Fixpoint findall_from (fuel : nat) (r : regex) (st : mstate) (must_advance : bool)
    : list (string * string) :=
  match fuel with
  | O => []
  | S fuel' =>
      match attempt r st must_advance with
      | Some st1 =>
          (group_text 1 st1, group_text 2 st1)
          :: findall_from fuel' r (MState (before st1) (after st1) [])
               (Nat.eqb (String.length (after st1)) (String.length (after st)))
      | None =>
          match after st with
          | EmptyString => []
          | String c s' => findall_from fuel' r (MState (String c (before st)) s' []) false
          end
      end
  end.

Definition re_findall (r : regex) (s : string) : list (string * string) :=
  findall_from (2 * String.length s + 2) r (start_of s) false.

(** *** Pattern syntax *)

Definition in_range (lo hi c : ascii) : bool :=
  (N.leb (N_of_ascii lo) (N_of_ascii c) && N.leb (N_of_ascii c) (N_of_ascii hi))%bool.
Definition is_upper (c : ascii) : bool := in_range "A" "Z" c.
Definition is_lower (c : ascii) : bool := in_range "a" "z" c.
Definition is_digit (c : ascii) : bool := in_range "0" "9" c.
Definition is_letter (c : ascii) : bool := is_upper c || is_lower c.
Definition is_alnum (c : ascii) : bool := is_letter c || is_digit c.
(** [\s]: tab, newline, vertical tab, form feed, carriage return, the
    four separators and the space. *)
Definition is_space (c : ascii) : bool :=
  in_range "009" "013" c || in_range "028" "031" c || Ascii.eqb c " ".
(** [\W]: neither a letter, a digit nor the underscore. *)
Definition is_nonword (c : ascii) : bool := negb (is_alnum c || Ascii.eqb c "_").
Definition one_of (cs : string) (c : ascii) : bool :=
  existsb (Ascii.eqb c) (list_ascii_of_string cs).
(** [.]: anything but a newline. *)
Definition dot : regex := Cls (fun c => negb (Ascii.eqb c newline)).

(** A literal text. *)
Fixpoint lit (s : string) : regex :=
  match s with
  | EmptyString => Eps
  | String c EmptyString => Cls (Ascii.eqb c)
  | String c s' => Cat (Cls (Ascii.eqb c)) (lit s')
  end.
(** [r+], [r*], [r*?] and [r?]. *)
Definition plus (r : regex) : regex := Cat r (Star true r).
Definition star (r : regex) : regex := Star true r.
Definition lazy_star (r : regex) : regex := Star false r.
Definition opt (r : regex) : regex := Alt r Eps.
(** [r1|r2|...]. *)
Fixpoint alts (rs : list regex) : regex :=
  match rs with
  | [] => Eps
  | [r] => r
  | r :: rs' => Alt r (alts rs')
  end.
(** [r1 r2 ...]. *)
Fixpoint seqs (rs : list regex) : regex :=
  match rs with
  | [] => Eps
  | [r] => r
  | r :: rs' => Cat r (seqs rs')
  end.

(** [s.upper()] and [s.lower()]. *)
Definition upper_char (c : ascii) : ascii :=
  if is_lower c then ascii_of_N (N_of_ascii c - 32) else c.
Definition lower_char (c : ascii) : ascii :=
  if is_upper c then ascii_of_N (N_of_ascii c + 32) else c.
Fixpoint map_string (f : ascii → ascii) (s : string) : string :=
  match s with
  | EmptyString => EmptyString
  | String c s' => String (f c) (map_string f s')
  end.
Definition upper : string → string := map_string upper_char.
Definition lower : string → string := map_string lower_char.

(** ** The normaliser stages *)

(** The contraction table of [expand], in the order of its statements. *)
Definition contractions : list (regex * string) :=
  [ (Cat (Cls (one_of "Ii")) (lit "t's"), "it is");
    (lit "'ve", " have");
    (lit "n't", " not");
    (lit "'ll", " will");
    (lit "'m", " am");
    (lit "'re", " are");
    (lit "'tis", "it is");
    (lit "'twas", "it was");
    (lit "let's", "let us");
    (lit "shan't", "shall not");
    (lit "G'day", "Good day");
    (lit "who's", "who is");
    (lit "where's", "where is");
    (lit "what's", "what is");
    (lit "why's", "why is");
    (lit "that's", "that is");
    (lit "there's", "there is");
    (lit "someone's", "someone is");
    (lit "somebody's", "somebody is");
    (lit "something's", "something is");
    (lit "he's", "he is");
    (lit "o'clock", "of the clock");
    (lit "ain't", "am not") ].

(** [expand(s)]: one substitution pass per row, each on the result of
    the pass before. *)
Definition expand (s : string) : string :=
  fold_left (fun s row => re_sub (fst row) (fun _ => snd row) s) contractions s.

(** [standardize_abbreviations(s)]. *)
Definition standardize_abbreviations (s : string) : string :=
  let s := re_sub (Cat (Behind is_upper) (lit ".")) (fun _ => EmptyString) s in
  let s := re_sub (Cat (Behind is_upper) (lit "-")) (fun _ => EmptyString) s in
  let s := re_sub (Cat (Behind is_lower) (lit "-")) (fun _ => EmptyString) s in
  let s := re_sub (seqs [star (Cls is_upper); star (Cls is_lower); plus (Cls is_digit)])
                  upper s in
  s.

(** [remove_numbers(s)]. *)
Definition remove_numbers (s : string) : string :=
  let s := re_sub (plus (Group 1 (seqs [Cls is_space; plus (Cls is_digit); Cls is_space])))
                  (fun _ => " ") s in
  let s := re_sub (seqs [Bol; plus (Cls is_digit); Cls is_space]) (fun _ => " ") s in
  let s := re_sub (seqs [Cls is_space; star (Cls (one_of "-+")); plus (Cls is_digit);
                         Cls is_space]) (fun _ => " ") s in
  let s := re_sub (seqs [Cls is_space; star (Cls (one_of "-+")); plus (Cls is_digit);
                         lit "."; plus (Cls is_digit); Cls is_nonword]) (fun _ => " ") s in
  s.

(** [lowercase(s)]. *)
Definition lowercase (s : string) : string :=
  let s := re_sub (Cat (Cls is_upper) (plus (Cls is_lower))) lower s in
  let s := re_sub (seqs [Bol; Cls is_upper; Cls is_space]) lower s in
  s.

(** [uppercase_i(s)]. *)
Definition uppercase_i (s : string) : string :=
  let s := re_sub (seqs [Bol; lit "i"; plus (Cls is_space)]) upper s in
  let s := re_sub (seqs [plus (Cls is_space); lit "i"; plus (Cls is_space)]) upper s in
  s.

(** [remove_punctuation(s)]. *)
Definition remove_punctuation (s : string) : string :=
  re_sub (plus (Cls (fun c => negb (is_alnum c)))) (fun _ => " ") s.

(** The stages that [tokenize] always runs, in its order. *)
Definition normalize (s : string) : string :=
  let s := expand s in
  let s := standardize_abbreviations s in
  let s := remove_numbers s in
  let s := lowercase s in
  let s := uppercase_i s in
  let s := remove_punctuation s in
  s.

(** ** The stemmer *)

(** A word of the exception list, its first letter in either case. *)
Definition either_case (first : string) (rest : string) : regex :=
  Cat (Cls (one_of first)) (lit rest).

(** The pattern [exceptions_ing]; under [re.X] the blanks and line
    breaks between its alternatives do not count. *)
Definition exceptions_ing : regex :=
  alts [ Cat (Cls is_letter) (lit "ing");
         seqs [Cls is_letter; dot; lit "ing"];
         either_case "Ss" "omething"; either_case "Nn" "othing";
         either_case "Dd" "uring"; either_case "Ee" "vening";
         either_case "Mm" "orning"; either_case "Ss" "tring";
         either_case "Cc" "eiling"; either_case "Ss" "terling";
         either_case "Cc" "ling"; either_case "Gg" "osling";
         either_case "Ii" "cing"; either_case "Ss" "hilling";
         either_case "Ss" "ting"; either_case "Vv" "iking";
         either_case "Ff" "iling"; either_case "Cc" "arling" ].

(** The suffixes, in the order of the pattern. *)
Definition suffixes : list string :=
  ["ies"; "es"; "s"; "ed"; "ing"; "ative"; "ive"; "ious"; "ously"; "ally"; "ly"; "ment"].

(** [^(.*?)(ies|es|...|ment)?$]. *)
Definition suffix_regex : regex :=
  seqs [Bol; Group 1 (lazy_star dot); opt (Group 2 (alts (map lit suffixes))); Eol].

(** [stem(word)]. Taking element 0 of the matches raises when the
    pattern matches nowhere. *)
Definition stem (word : string) : result string :=
  if re_match exceptions_ing word then Ok word
  else
    m ← py_index (re_findall suffix_regex word) 0;
    Ok (fst m).

(** The words that the specification lists as exceptions. *)
Definition listed_exceptions : list string :=
  ["something"; "nothing"; "during"; "evening"; "morning"; "string"; "ceiling";
   "sterling"; "cling"; "gosling"; "icing"; "shilling"; "sting"; "viking";
   "filing"; "carling"].

(** ** Term statistics *)

(** Python floats are taken as real numbers: the model keeps the
    formula and the errors of the float operations, not their rounding. *)

(** [x / n] on floats raises on a zero divisor. *)
Definition float_div (x : R) (n : Z) : result R :=
  if n =? 0 then Raise ZeroDivisionError else Ok (x / IZR n)%R.

(** [math.log(x)] raises outside its domain. *)
Definition math_log (x : R) : result R :=
  if Rle_dec x 0 then Raise ValueError else Ok (ln x).

(** [tfidf(term, doc, docs)]. *)
Definition tfidf (term : string) (doc : list string) (docs : list (list string))
    : result R :=
  tf ← float_div (IZR (list_count term doc)) (len doc);
  q ← float_div (IZR (len docs)) (len (List.filter (fun d => list_mem term d) docs));
  idf ← math_log (1 + q)%R;
  Ok (tf * idf)%R.

(** ** The vocabulary of the statements *)

(** Text of lowercase letters and single blanks only. *)
Definition plain_text (s : string) : bool :=
  forallb (fun c => is_lower c || Ascii.eqb c space) (list_ascii_of_string s).

(** The words ending in "ing". *)
Definition ends_in_ing (w : string) : Prop := ∃ p : string, w = p +:+ "ing".

(** The words that the exception pattern lets through: the listed ones,
    and the words that start with a letter and "ing", or with a letter,
    one more character and "ing". *)
Inductive stem_exception : string → Prop :=
| exc_listed w :
    In w listed_exceptions → stem_exception w
| exc_letter_ing c rest :
    is_letter c = true → stem_exception (String c ("ing" +:+ rest))
| exc_letter_any_ing c d rest :
    is_letter c = true → d ≠ newline →
    stem_exception (String c (String d ("ing" +:+ rest))).

(** The merged count of a key: the sum of its counts, when it is in
    one of the tables. *)
Definition merged (x y : option Z) : option Z :=
  match x, y with
  | None, None => None
  | _, _ => Some (default 0 x + default 0 y)
  end.

(** The last word and the word before it, of a word sequence. *)
Definition last_word (ws : list string) : string := List.last ws EmptyString.
Definition second_last_word (ws : list string) : string :=
  List.last (removelast ws) EmptyString.

(** An entry whose n-gram continues the start word. *)
Definition continues (start_word : string) (e : string * Z) : bool :=
  String.eqb start_word (second_last_word (words_of (fst e))).

(** The key of an entry splits into at least two words. *)
Definition bigram_key (e : string * Z) : Prop := 2 ≤ len (words_of (fst e)).

(** The documented table, in insertion order. *)
Definition doc_table : list (string * Z) :=
  [("the rain", 2); ("in spain", 2); ("rain in", 2); ("spain falls", 1);
   ("falls mainly", 1); ("mainly in", 1)].

(** Two positions of a sentence that hold [a] and [b] and lie within
    [w] words of each other, the second before or behind the first. *)
Definition near_pair (w : Z) (a b : string) (p q : Z * string) : Z :=
  if String.eqb (snd p) a && String.eqb (snd q) b
     && ((fst p - w <=? fst q) && (fst q <? fst p)
         || (fst p + 1 <=? fst q) && (fst q <? fst p + 1 + w))
  then 1 else 0.

(** The exception pattern over any class of first letters; the pattern
    of [stem] is the one over the letters. *)
Definition exceptions_over (letter : ascii → bool) : regex :=
  alts [ Cat (Cls letter) (lit "ing");
         seqs [Cls letter; dot; lit "ing"];
         either_case "Ss" "omething"; either_case "Nn" "othing";
         either_case "Dd" "uring"; either_case "Ee" "vening";
         either_case "Mm" "orning"; either_case "Ss" "tring";
         either_case "Cc" "eiling"; either_case "Ss" "terling";
         either_case "Cc" "ling"; either_case "Gg" "osling";
         either_case "Ii" "cing"; either_case "Ss" "hilling";
         either_case "Ss" "ting"; either_case "Vv" "iking";
         either_case "Ff" "iling"; either_case "Cc" "arling" ].

(** A word with its first letter in upper case. *)
Definition capitalize (w : string) : string :=
  match w with
  | EmptyString => EmptyString
  | String c r => String (upper_char c) r
  end.

(** ** The vocabulary of a corpus *)

(** [tokens(sentences)]: the words in the order of their first
    occurrence.  [add_token] is the body of the inner loop: the word is
    appended unless it is there. *)
Definition add_token (t : list string) (w : string) : list string :=
  if negb (list_mem w t) then t ++ [w] else t.

Definition tokens (sentences : list (list string)) : list string :=
  fold_left (fun t sentence => fold_left add_token sentence t) sentences [].

(** * Properties *)

Example n_gram_doc :
  n_gram 2 "the rain in Spain falls mainly on the plain"
  = ["the rain"; "rain in"; "in Spain"; "Spain falls"; "falls mainly";
     "mainly on"; "on the"; "the plain"].
Proof. reflexivity. Qed.

Example skip_gram_doc :
  skip_gram 1 2 "the rain in Spain falls mainly on the plain"
  = Ok ["the in"; "rain Spain"; "in falls"; "Spain mainly"; "falls on";
        "mainly the"; "on plain"].
Proof. reflexivity. Qed.

(** ** The Python primitives *)

Section Primitives.
Context {A : Type}.
Implicit Types (l : list A) (n i : Z).

Lemma len_nonneg l : 0 ≤ len l.
Proof. unfold len. lia. Qed.

Lemma py_range_length n : len (py_range n) = Z.max 0 n.
Proof. unfold len, py_range. rewrite length_map, length_seq. lia. Qed.

Lemma py_range_nth n i :
  0 ≤ i < n → nth_error (py_range n) (Z.to_nat i) = Some i.
Proof.
  intros Hi. unfold py_range.
  rewrite nth_error_map, nth_error_seq.
  destruct (Nat.ltb_spec (Z.to_nat i) (Z.to_nat n)); [|lia].
  simpl. f_equal. lia.
Qed.

(** Within the list, a slice is the plain sub-list. *)
Lemma py_slice_inside l lo hi :
  0 ≤ lo → lo ≤ hi → hi ≤ len l →
  py_slice l lo hi = firstn (Z.to_nat (hi - lo)) (skipn (Z.to_nat lo) l).
Proof.
  intros H0 H1 H2. unfold py_slice, slice_bound.
  destruct (Z.ltb_spec lo 0); [lia|].
  destruct (Z.ltb_spec hi 0); [lia|].
  rewrite !Z.min_l by lia. reflexivity.
Qed.



Lemma py_index_inside l i (x : A) :
  0 ≤ i → nth_error l (Z.to_nat i) = Some x → py_index l i = Ok x.
Proof.
  intros Hi Hx. unfold py_index.
  destruct (Z.ltb_spec i 0); [lia|].
  destruct (Z.ltb_spec i 0); [lia|]. by rewrite Hx.
Qed.
End Primitives.

(** Splitting always yields at least one word. *)
Lemma split_on_nonempty sep s : split_on sep s ≠ [].
Proof.
  destruct s as [|c s]; simpl; [done|].
  destruct (Ascii.eqb c sep); [done|]. by destruct (split_on sep s).
Qed.

Lemma wordCount_pos s : 1 ≤ wordCount s.
Proof.
  unfold wordCount, words_of, len.
  pose proof (split_on_nonempty space s). destruct (split_on space s); [done|].
  simpl. lia.
Qed.

(** The words of a text, joined by single spaces, are the text again. *)
Lemma join_words_of s : join " " (words_of s) = s.
Proof.
  unfold words_of. induction s as [|c s IH]; [done|]. simpl split_on.
  pose proof (split_on_nonempty space s) as Hne.
  destruct (Ascii.eqb_spec c space) as [->|Hc].
  - destruct (split_on space s) as [|w ws] eqn:E; [done|].
    change (join " " ("" :: w :: ws)) with (String space (join " " (w :: ws))).
    by rewrite IH.
  - destruct (split_on space s) as [|w ws] eqn:E; [done|].
    destruct ws as [|w' ws]; simpl in *; by rewrite <- IH.
Qed.

(** No word of a text contains a space. *)
Lemma words_of_no_space s :
  Forall (fun w => ¬ In space (list_ascii_of_string w)) (words_of s).
Proof.
  unfold words_of. induction s as [|c s IH]; simpl.
  - constructor; [intros []|constructor].
  - destruct (Ascii.eqb_spec c space) as [->|Hc].
    + constructor; [intros []|done].
    + destruct (split_on space s) as [|w ws]; [constructor; [|constructor]|].
      * simpl. intros [?|[]]. congruence.
      * inversion IH; subst. constructor; [|done].
        simpl. intros [?|?]; [congruence|done].
Qed.

(** ** n-grams *)



(** The empty text has one word, the empty one, and so one 1-gram. *)
Example n_gram_empty_text : n_gram 1 "" = [""] ∧ wordCount "" = 1.
Proof. split; reflexivity. Qed.

(** ** Skip-grams *)

(** C3. With four words per skip-gram the inner range [range(1, n+k, k+1)]
    stops one step early: on seven words, skip 1, the code returns the
    three-word entry "a c e" where the specification has the four-word
    entry "a c e g". *)
Theorem skip_gram_four_words_short :
  skip_gram 1 4 "a b c d e f g" = Ok ["a c e"]
  ∧ skip_gram_spec 1 4 "a b c d e f g" = ["a c e g"].
Proof. split; reflexivity. Qed.

(** ** Co-occurrence counts *)

(** The documented count. *)
Example get_cooccurance_count_doc :
  get_cooccurance_count 1 "NLP" "like"
    [["I"; "like"; "NLP"]; ["I"; "like"; "NLP"; "problems"]] = 2.
Proof. reflexivity. Qed.

(** C1. With window 2 and the target at position 1 the left slice
    [s[i-2:i]] starts at the negative index -1, which Python counts from
    the end: the slice is empty and the neighbor at position 0 is not
    counted, while the clipped window of the specification counts it. *)
Theorem get_cooccurance_count_left_window_wraps :
  py_slice ["a"; "b"] (1 - 2) 1 = ([] : list string)
  ∧ get_cooccurance_count 2 "b" "a" [["a"; "b"]] = 0
  ∧ cooccurance_clipped 2 "b" "a" [["a"; "b"]] = 1.
Proof. repeat split; reflexivity. Qed.

(** C2. No matrix is ever built: the module does not bind [np], so the
    first statement of [build_cooccurance_matrix] raises NameError on
    every call. The counts that would fill its cells are not symmetric
    either: by the wrap of C1, "b" is counted to the right of "a", but
    "a" is not counted to the left of "b". *)
Theorem build_cooccurance_matrix_not_symmetric :
  (∀ (window : Z) (tokens : list string) (sentences : list (list string)),
     build_cooccurance_matrix window tokens sentences = Raise NameError)
  ∧ get_cooccurance_count 2 "a" "b" [["a"; "b"]] = 1
  ∧ get_cooccurance_count 2 "b" "a" [["a"; "b"]] = 0.
Proof. repeat split; reflexivity. Qed.

(** ** The normaliser *)

(** C7. On the lowercase, punctuation-free, number-free text "a i i b"
    the second substitution of [uppercase_i] consumes the blank between
    the two pronouns, so the first pass leaves the second "i" in lower
    case and a second pass changes the text again. *)
Theorem normalize_not_idempotent :
  plain_text "a i i b" = true
  ∧ normalize "a i i b" = "a I i b"
  ∧ normalize (normalize "a i i b") = "a I I b".
Proof. repeat split; vm_compute; reflexivity. Qed.

(** The same text is itself an output of the normaliser. *)
Example normalize_output_not_fixed :
  normalize "a.i.i.b" = "a i i b" ∧ uppercase_i "a i i b" = "a I i b".
Proof. split; vm_compute; reflexivity. Qed.

(** ** The stemmer *)

(** The documented stems. *)
Example stem_doc :
  map stem ["thinking"; "derived"; "derives"; "derivative"; "sing"; "sterling"]
  = [Ok "think"; Ok "deriv"; Ok "deriv"; Ok "deriv"; Ok "sing"; Ok "sterling"].
Proof. vm_compute. reflexivity. Qed.

(** C9, as stated, fails: "thinking" ends in "ing" and is stemmed. *)
Lemma stem_thinking_is_stemmed :
  ends_in_ing "thinking"
  ∧ stem "thinking" = Ok "think"
  ∧ stem "thinking" ≠ Ok "thinking".
Proof.
  split; [by exists "think"|].
  split; [vm_compute; reflexivity|vm_compute; discriminate].
Qed.

Lemma exceptions_ing_over : exceptions_ing = exceptions_over is_letter.
Proof. reflexivity. Qed.

(** The first alternative: a first letter and "ing". *)
Lemma exceptions_letter_ing (letter : ascii → bool) (c : ascii) (rest : string) :
  letter c = true →
  re_match (exceptions_over letter) (String c ("ing" +:+ rest)) = true.
Proof. intros Hc. vm_compute. rewrite Hc. reflexivity. Qed.

(** The second alternative: a first letter, any character but a
    newline, and "ing". *)
Lemma exceptions_letter_any_ing (letter : ascii → bool) (c d : ascii) (rest : string) :
  letter c = true → d ≠ newline →
  re_match (exceptions_over letter) (String c (String d ("ing" +:+ rest))) = true.
Proof.
  intros Hc Hd.
  destruct d as [[] [] [] [] [] [] [] []];
    try (vm_compute; rewrite Hc; reflexivity).
  by destruct Hd.
Qed.

(** C9, amended. Every listed exception word, every word that starts
    with a letter followed by "ing", and every word that starts with a
    letter, one further character other than a newline, and "ing", is
    returned unchanged by [stem]. *)
Theorem stem_exception_unchanged (w : string) :
  stem_exception w → stem w = Ok w.
Proof.
  intros [w' Hin | c rest Hc | c d rest Hc Hd].
  - unfold listed_exceptions in Hin. simpl in Hin.
    repeat (destruct Hin as [<- | Hin]; [vm_compute; reflexivity|]). destruct Hin.
  - unfold stem. rewrite exceptions_ing_over, exceptions_letter_ing by done.
    reflexivity.
  - unfold stem. rewrite exceptions_ing_over, exceptions_letter_any_ing by done.
    reflexivity.
Qed.

Lemma stem_exception_unchanged_witness :
  stem_exception "thing" ∧ stem "thing" = Ok "thing".
Proof.
  assert (stem_exception "thing") as H.
  { apply (exc_letter_any_ing "t" "h" ""); [reflexivity|discriminate]. }
  split; [exact H|]. apply (stem_exception_unchanged "thing"). exact H.
Defined.

(** ** Token tables *)

Section MergeTokens.
Implicit Types (a b d acc : gmap string Z) (k : string).

(** One loop of [merge_tokens]: every key of the table walked gets its
    count plus the count in the other table; the other keys stay. *)
Lemma merge_loop other acc d k :
  map_fold (fun k v acc =>
              match other !! k with
              | Some ok => <[k := ok + v]> acc
              | None => <[k := v]> acc
              end) acc d !! k
  = match d !! k with
    | Some v => Some (count_of other k + v)
    | None => acc !! k
    end.
Proof.
  revert k. apply (map_fold_weak_ind
    (fun r m => ∀ k, r !! k = match m !! k with
                             | Some v => Some (count_of other k + v)
                             | None => acc !! k
                             end)).
  - intros k. by rewrite lookup_empty.
  - intros i x m r Hi IH k. unfold count_of.
    destruct (decide (i = k)) as [->|Hne].
    + rewrite lookup_insert_eq.
      destruct (other !! k); rewrite lookup_insert_eq; simpl; f_equal; lia.
    + rewrite (lookup_insert_ne m) by done.
      destruct (other !! i); rewrite lookup_insert_ne by done; apply IH.
Qed.

Lemma merge_tokens_lookup a b k :
  merge_tokens a b !! k = merged (a !! k) (b !! k).
Proof.
  unfold merge_tokens. rewrite !merge_loop, lookup_empty. unfold count_of, merged.
  destruct (a !! k), (b !! k); simpl; f_equal; lia.
Qed.

Lemma merged_comm (x y : option Z) : merged x y = merged y x.
Proof. destruct x, y; simpl; f_equal; lia. Qed.

Lemma sum_values_empty : sum_values ∅ = 0.
Proof. unfold sum_values. by rewrite map_fold_empty. Qed.

Lemma sum_values_insert_fresh d k (x : Z) :
  d !! k = None → sum_values (<[k := x]> d) = sum_values d + x.
Proof.
  intros Hk. unfold sum_values. rewrite map_fold_insert_L; [done| |done].
  intros. lia.
Qed.

(** Overwriting a key changes the total by the difference of counts. *)
Lemma sum_values_insert d k (x : Z) :
  sum_values (<[k := x]> d) = sum_values d + x - count_of d k.
Proof.
  unfold count_of. destruct (d !! k) as [v|] eqn:E; simpl.
  - rewrite <- (insert_delete_eq d k x).
    rewrite <- (insert_delete_id d k v E) at 2.
    rewrite !sum_values_insert_fresh by apply lookup_delete_eq. lia.
  - rewrite sum_values_insert_fresh by done. lia.
Qed.

Lemma sum_values_merge a b :
  sum_values (merge_tokens a b) = sum_values a + sum_values b.
Proof.
  induction a as [|k x a Hk IH] using map_ind.
  - rewrite sum_values_empty.
    assert (merge_tokens ∅ b = b) as ->; [|lia].
    apply map_eq. intros k.
    rewrite merge_tokens_lookup, lookup_empty. unfold merged.
    destruct (b !! k); simpl; f_equal.
  - assert (merge_tokens (<[k := x]> a) b
            = <[k := x + count_of b k]> (merge_tokens a b)) as ->.
    { apply map_eq. intros j. rewrite merge_tokens_lookup.
      destruct (decide (k = j)) as [->|Hne].
      - rewrite !lookup_insert_eq. unfold merged, count_of. by destruct (b !! j).
      - rewrite !lookup_insert_ne by done. by rewrite merge_tokens_lookup. }
    rewrite sum_values_insert, sum_values_insert_fresh, IH by done.
    unfold count_of at 2. rewrite merge_tokens_lookup, Hk. unfold merged, count_of.
    destruct (b !! k); simpl; lia.
Qed.

(** C5. Every key of either table is in the merged table with the sum
    of its counts (0 for a table that lacks it), there are no other
    keys, merging commutes, and the total of the counts is kept. *)
Theorem merge_tokens_sums a b :
  (∀ k, merge_tokens a b !! k
        = match a !! k, b !! k with
          | None, None => None
          | _, _ => Some (count_of a k + count_of b k)
          end)
  ∧ dom (merge_tokens a b) = dom a ∪ dom b
  ∧ merge_tokens a b = merge_tokens b a
  ∧ sum_values (merge_tokens a b) = sum_values a + sum_values b.
Proof.
  split; [|split; [|split]].
  - intros k. apply merge_tokens_lookup.
  - apply set_eq. intros k.
    rewrite elem_of_union, !elem_of_dom, merge_tokens_lookup. unfold merged.
    destruct (a !! k), (b !! k); simpl; split; intros H;
      try (by left); try (by right); try done.
    destruct H as [[? [=]]|[? [=]]].
  - apply map_eq. intros k. rewrite !merge_tokens_lookup. apply merged_comm.
  - apply sum_values_merge.
Qed.
End MergeTokens.

Example merge_tokens_run :
  merge_tokens {["a" := 2; "of" := 1]} {["a" := 1; "the" := 3]}
  = {["a" := 3; "of" := 1; "the" := 3]}.
Proof. vm_compute. reflexivity. Qed.

(** ** Term statistics *)

Lemma list_mem_In (term : string) (d : list string) :
  list_mem term d = true ↔ In term d.
Proof.
  unfold list_mem. rewrite existsb_exists. split.
  - intros (y & Hy & E). apply String.eqb_eq in E. by subst.
  - intros H. exists term. split; [done|]. apply String.eqb_refl.
Qed.

(** No document passes the filter exactly when none contains the term. *)
Lemma document_frequency_zero (term : string) (docs : list (list string)) :
  len (List.filter (fun d => list_mem term d) docs) = 0
  ↔ ∀ d, In d docs → ¬ In term d.
Proof.
  unfold len. induction docs as [|d docs IH]; simpl.
  - split; [intros _ d []|done].
  - destruct (list_mem term d) eqn:E; simpl.
    + split; [lia|]. intros H. exfalso. apply (H d); [by left|].
      by apply list_mem_In.
    + rewrite IH. split.
      * intros H d' [<-|Hin]; [|by apply H].
        rewrite <- list_mem_In. by rewrite E.
      * intros H d' Hin. apply H. by right.
Qed.

(** C6. [tfidf] raises ZeroDivisionError exactly when the document is
    empty or no document of the collection contains the term, it raises
    nothing else, and otherwise it returns the term's count in the
    document over the document's length, times the logarithm of one plus
    the number of documents over the number of documents that contain
    the term. *)
Theorem tfidf_domain (term : string) (doc : list string) (docs : list (list string)) :
  (tfidf term doc docs = Raise ZeroDivisionError
   ↔ doc = [] ∨ ∀ d, In d docs → ¬ In term d)
  ∧ (∀ e, tfidf term doc docs = Raise e → e = ZeroDivisionError)
  ∧ (doc ≠ [] → (∃ d, In d docs ∧ In term d) →
     tfidf term doc docs
     = Ok (IZR (list_count term doc) / IZR (len doc)
           * ln (1 + IZR (len docs)
                     / IZR (len (List.filter (fun d => list_mem term d) docs))))%R).
Proof.
  pose proof (document_frequency_zero term docs) as Hdf.
  pose proof (len_nonneg docs) as Hdocs.
  pose proof (len_nonneg (List.filter (fun d => list_mem term d) docs)) as Hpos.
  set (df := len (List.filter (fun d => list_mem term d) docs)) in *.
  assert (len doc = 0 ↔ doc = []) as Hdoc.
  { unfold len. destruct doc; simpl; split; (done || lia). }
  assert (df ≠ 0 → ¬ (1 + IZR (len docs) / IZR df <= 0)%R) as Hlog.
  { intros Hne. assert (0 < IZR df)%R by (apply IZR_lt; lia).
    assert (0 <= IZR (len docs))%R by (apply IZR_le; lia).
    assert (0 <= IZR (len docs) / IZR df)%R; [|lra].
    apply Rmult_le_pos; [done|]. left. by apply Rinv_0_lt_compat. }
  assert (tfidf term doc docs
          = if len doc =? 0 then Raise ZeroDivisionError
            else if df =? 0 then Raise ZeroDivisionError
            else Ok (IZR (list_count term doc) / IZR (len doc)
                     * ln (1 + IZR (len docs) / IZR df))%R) as ->.
  { unfold tfidf, float_div. fold df.
    destruct (len doc =? 0); [done|]. simpl.
    destruct (Z.eqb_spec df 0); [done|]. simpl.
    unfold math_log. by destruct (Rle_dec _ _) as [Hle|_]; [destruct (Hlog n Hle)|]. }
  destruct (Z.eqb_spec (len doc) 0) as [E|E]; [|destruct (Z.eqb_spec df 0) as [E'|E']].
  - split; [|split]; [| intros e [=]; done |].
    + split; [|done]. intros _. left. by apply Hdoc.
    + intros Hne. destruct Hne. by apply Hdoc.
  - split; [|split]; [| intros e [=]; done |].
    + split; [|done]. intros _. right. by apply Hdf.
    + intros _ (d & Hd & Ht). exfalso. by apply (proj1 Hdf E' d).
  - split; [|split]; [| intros e [=] | done].
    split; [intros [=]|]. intros [H|H]; [by apply Hdoc in H|by apply Hdf in H].
Qed.

Lemma tfidf_domain_witness :
  tfidf "c" ["a"; "c"; "c"] [["a"]; ["a"; "c"; "c"]; ["a"; "b"; "c"]]
  = Ok (IZR 2 / IZR 3 * ln (1 + IZR 3 / IZR 2))%R.
Proof.
  apply (tfidf_domain "c" ["a"; "c"; "c"] [["a"]; ["a"; "c"; "c"]; ["a"; "b"; "c"]]).
  - discriminate.
  - exists ["a"; "c"; "c"]. split; simpl; auto.
Defined.

(** ** Next-word prediction *)

Section Sorting.
Context {A : Type} (key : A → Z).

Lemma insert_sorted_perm (x : A) (l : list A) :
  Permutation (insert_sorted key x l) (x :: l).
Proof.
  induction l as [|y l IH]; simpl; [done|].
  destruct (key x <=? key y); [done|].
  rewrite IH. apply perm_swap.
Qed.

Lemma sorted_perm (l : list A) : Permutation (sorted key l) l.
Proof.
  induction l as [|x l IH]; simpl; [done|].
  rewrite insert_sorted_perm. by constructor.
Qed.

Lemma insert_sorted_ordered (x : A) (l : list A) :
  StronglySorted (fun a b => key a ≤ key b) l →
  StronglySorted (fun a b => key a ≤ key b) (insert_sorted key x l).
Proof.
  induction 1 as [|y l Hl IH Hy]; simpl.
  - repeat constructor.
  - destruct (Z.leb_spec (key x) (key y)) as [Hle|Hgt].
    + constructor; [by constructor|]. constructor; [done|].
      eapply Forall_impl; [exact Hy|]. simpl. intros. lia.
    + constructor; [done|].
      eapply Permutation_Forall; [symmetry; apply insert_sorted_perm|].
      constructor; [lia|done].
Qed.

Lemma sorted_ordered (l : list A) :
  StronglySorted (fun a b => key a ≤ key b) (sorted key l).
Proof.
  induction l as [|x l IH]; simpl; [constructor|].
  by apply insert_sorted_ordered.
Qed.

(** Stability: the elements of one key keep their order. *)
Lemma insert_sorted_stable (c : Z) (x : A) (l : list A) :
  List.filter (fun a => key a =? c) (insert_sorted key x l)
  = List.filter (fun a => key a =? c) (x :: l).
Proof.
  induction l as [|y l IH]; [done|]. simpl insert_sorted.
  destruct (Z.leb_spec (key x) (key y)) as [Hle|Hgt]; [done|].
  simpl in *. rewrite IH.
  destruct (Z.eqb_spec (key x) c), (Z.eqb_spec (key y) c); try done. lia.
Qed.

Lemma sorted_stable (c : Z) (l : list A) :
  List.filter (fun a => key a =? c) (sorted key l)
  = List.filter (fun a => key a =? c) l.
Proof.
  induction l as [|x l IH]; [done|]. simpl sorted.
  rewrite insert_sorted_stable. simpl. by rewrite IH.
Qed.
End Sorting.

Section Indexing.
Context {A : Type}.
Implicit Types (l : list A) (d : A).

Lemma nth_error_last l d :
  l ≠ [] → nth_error l (length l - 1) = Some (List.last l d).
Proof.
  intros Hl. rewrite (app_removelast_last d Hl) at 1 2.
  rewrite length_app. simpl.
  rewrite nth_error_app2 by lia.
  replace (_ - _)%nat with 0%nat by lia. done.
Qed.

Lemma py_index_last l d : l ≠ [] → py_index l (-1) = Ok (List.last l d).
Proof.
  intros Hl. unfold py_index. simpl.
  assert (1 ≤ len l) by (unfold len; destruct l; [done|simpl; lia]).
  destruct (Z.ltb_spec (-1 + len l) 0); [lia|].
  replace (Z.to_nat (-1 + len l)) with (length l - 1)%nat by (unfold len; lia).
  by rewrite (nth_error_last l d).
Qed.

Lemma py_index_second_last l d :
  2 ≤ len l → py_index l (-2) = Ok (List.last (removelast l) d).
Proof.
  intros Hl. unfold py_index. simpl.
  destruct (Z.ltb_spec (-2 + len l) 0); [lia|].
  assert (l ≠ []) as Hne by (intros ->; unfold len in Hl; simpl in Hl; lia).
  assert (length (removelast l) = (length l - 1)%nat) as Hlen.
  { rewrite (app_removelast_last d Hne) at 2. rewrite length_app. simpl. lia. }
  assert (removelast l ≠ []) as Hne'.
  { intros E. rewrite E in Hlen. unfold len in Hl. simpl in Hlen. lia. }
  replace (Z.to_nat (-2 + len l)) with (length (removelast l) - 1)%nat
    by (unfold len; lia).
  rewrite (app_removelast_last d Hne) at 1.
  rewrite nth_error_app1 by (unfold len in Hl; lia).
  by rewrite (nth_error_last _ d).
Qed.

Lemma py_index_second_last_short l :
  len l < 2 → py_index l (-2) = Raise IndexError.
Proof.
  intros Hl. unfold py_index. simpl.
  destruct (Z.ltb_spec (-2 + len l) 0); [done|lia].
Qed.
End Indexing.

Lemma strongly_sorted_weaken {A : Type} (R R' : A → A → Prop) (l : list A) :
  (∀ x y, R x y → R' x y) → StronglySorted R l → StronglySorted R' l.
Proof.
  intros HR. induction 1 as [|x l Hl IH Hx]; constructor; [done|].
  eapply Forall_impl; [exact Hx|]. auto.
Qed.

Lemma words_of_nonempty s : words_of s ≠ [].
Proof. apply split_on_nonempty. Qed.

(** On keys of two or more words the scan stops at the first entry that
    continues the start word and returns the last word of its key. *)
Lemma bigram_scan_first_match (start_word : string) (l : list (string * Z)) :
  Forall bigram_key l →
  bigram_scan start_word l
  = Ok (match List.find (continues start_word) l with
        | Some e => last_word (words_of (fst e))
        | None => EmptyString
        end).
Proof.
  induction 1 as [|e l He Hl IH]; [done|]. simpl.
  rewrite (py_index_second_last _ EmptyString) by exact He. simpl.
  unfold continues at 1. fold (second_last_word (words_of (fst e))).
  destruct (String.eqb start_word (second_last_word (words_of (fst e)))); [|exact IH].
  apply py_index_last, words_of_nonempty.
Qed.

(** The scan returns a word or raises IndexError, and it raises exactly
    when it reaches a one-word key before any entry has matched. *)
Lemma bigram_scan_raises (start_word : string) (l : list (string * Z)) :
  bigram_scan start_word l = Raise IndexError
  ↔ ∃ l1 e l2,
      l = l1 ++ e :: l2
      ∧ len (words_of (fst e)) < 2
      ∧ Forall (fun e' => bigram_key e' ∧ continues start_word e' = false) l1.
Proof.
  induction l as [|e l IH].
  - simpl. split; [done|]. intros (l1 & e & l2 & E & _). by destruct l1.
  - simpl. destruct (Z.lt_ge_cases (len (words_of (fst e))) 2) as [Hlt|Hge].
    + rewrite py_index_second_last_short by done. simpl. split; [|done].
      intros _. exists [], e, l. by repeat split.
    + rewrite (py_index_second_last _ EmptyString) by lia. simpl.
      fold (second_last_word (words_of (fst e))). fold (continues start_word e).
      destruct (continues start_word e) eqn:Ec.
      * rewrite (py_index_last _ EmptyString) by apply words_of_nonempty.
        split; [done|]. intros (l1 & e' & l2 & E & Hshort & Hall).
        destruct l1 as [|e1 l1]; simplify_eq/=; [lia|].
        inversion Hall as [|? ? [_ Hc] _]; subst. congruence.
      * rewrite IH. split.
        -- intros (l1 & e' & l2 & -> & Hshort & Hall).
           exists (e :: l1), e', l2. repeat split; try done.
           constructor; [|done]. split; [unfold bigram_key; lia|done].
        -- intros (l1 & e' & l2 & E & Hshort & Hall).
           destruct l1 as [|e1 l1]; simplify_eq/=; [lia|].
           exists l1, e', l2. repeat split; try done. by inversion Hall.
Qed.

(** C8. On a table whose keys all have at least two words, the entries
    are scanned in the order of a stable sort by count, highest first:
    a permutation of the table, in descending count, entries of one
    count in the order of the table. The result is the last word of the
    first entry whose second-to-last word is the last word of the
    prefix text, and the empty string when there is no such entry. *)
Theorem bigram_predict_first_match (t : list (string * Z)) (s : string) :
  Forall bigram_key t →
  ∃ entries : list (string * Z),
    Permutation entries t
    ∧ StronglySorted (fun x y => snd y ≤ snd x) entries
    ∧ (∀ c, List.filter (fun e => snd e =? c) entries
            = List.filter (fun e => snd e =? c) t)
    ∧ bigram_predict t s
      = Ok (match List.find (continues (last_word (words_of s))) entries with
            | Some e => last_word (words_of (fst e))
            | None => EmptyString
            end).
Proof.
  intros Ht. exists (sorted (fun x : string * Z => - snd x) t).
  split; [apply sorted_perm|]. split; [|split].
  - eapply strongly_sorted_weaken;
      [|apply (sorted_ordered (fun x : string * Z => - snd x))].
    simpl. intros x y. lia.
  - intros c. pose proof (sorted_stable (fun x : string * Z => - snd x) (- c) t) as H.
    erewrite (filter_ext _ (fun a => - snd a =? - c)), H; [apply filter_ext|];
      intros a; destruct (Z.eqb_spec (snd a) c), (Z.eqb_spec (- snd a) (- c)); (done || lia).
  - unfold bigram_predict.
    rewrite (py_index_last _ EmptyString) by apply words_of_nonempty. simpl.
    apply bigram_scan_first_match.
    eapply Permutation_Forall; [symmetry; apply sorted_perm|done].
Qed.

Lemma doc_table_bigrams : Forall bigram_key doc_table.
Proof. repeat constructor; unfold bigram_key; vm_compute; discriminate. Qed.

Lemma bigram_predict_first_match_witness :
  Forall bigram_key doc_table
  ∧ ∃ entries : list (string * Z),
      Permutation entries doc_table
      ∧ StronglySorted (fun x y => snd y ≤ snd x) entries
      ∧ (∀ c, List.filter (fun e => snd e =? c) entries
              = List.filter (fun e => snd e =? c) doc_table)
      ∧ bigram_predict doc_table "in the"
        = Ok (match List.find (continues (last_word (words_of "in the"))) entries with
              | Some e => last_word (words_of (fst e))
              | None => EmptyString
              end).
Proof.
  split; [exact doc_table_bigrams|].
  apply (bigram_predict_first_match doc_table "in the"). exact doc_table_bigrams.
Defined.

(** The documented predictions. *)
Example bigram_predict_doc :
  bigram_predict doc_table "in the" = Ok "rain"
  ∧ bigram_predict doc_table "in bed" = Ok "".
Proof. split; vm_compute; reflexivity. Qed.

(** Ties keep the order of the table: of two entries of one count that
    both continue the start word, the one inserted first is returned. *)
Example bigram_predict_tie :
  bigram_predict [("a x", 1); ("a y", 2); ("a z", 2)] "a" = Ok "y".
Proof. vm_compute. reflexivity. Qed.

(** C10. [bigram_predict] returns a word or raises IndexError, and it
    raises exactly when, in the order of the scan, a key that splits
    into fewer than two words is reached before any entry has matched:
    the entries scanned before it all have keys of two or more words and
    none of them continues the last word of the prefix text. *)
Theorem bigram_predict_unigram_key (t : list (string * Z)) (s : string) :
  ((∃ w, bigram_predict t s = Ok w) ∨ bigram_predict t s = Raise IndexError)
  ∧ (bigram_predict t s = Raise IndexError
     ↔ ∃ l1 e l2,
         sorted (fun x : string * Z => - snd x) t = l1 ++ e :: l2
         ∧ len (words_of (fst e)) < 2
         ∧ Forall (fun e' => bigram_key e'
                             ∧ continues (last_word (words_of s)) e' = false) l1).
Proof.
  unfold bigram_predict.
  rewrite (py_index_last _ EmptyString) by apply words_of_nonempty. simpl.
  split; [|apply bigram_scan_raises].
  generalize (sorted (fun x : string * Z => - snd x) t) as l.
  induction l as [|e l IH]; simpl; [left; by eexists|].
  destruct (Z.lt_ge_cases (len (words_of (fst e))) 2) as [Hlt|Hge].
  - rewrite py_index_second_last_short by done. by right.
  - rewrite (py_index_second_last _ EmptyString) by lia. simpl.
    destruct (String.eqb _ _); [|exact IH].
    rewrite (py_index_last _ EmptyString) by apply words_of_nonempty.
    left. by eexists.
Qed.

(** A one-word key at the head of the scan raises, and a one-word key
    behind a match is never reached. *)
Example bigram_predict_unigram_run :
  bigram_predict [("rain", 2)] "in bed" = Raise IndexError
  ∧ bigram_predict [("bed time", 2); ("rain", 1)] "in bed" = Ok "time"
  ∧ bigram_predict [("bed time", 1); ("rain", 2)] "in bed" = Raise IndexError.
Proof. repeat split; vm_compute; reflexivity. Qed.

(** ** Sums over lists *)

Lemma fold_add_shift (zs : list Z) (x : Z) :
  fold_left Z.add zs x = x + py_sum zs.
Proof.
  unfold py_sum. revert x. induction zs as [|z zs IH]; intros x; cbn [fold_left]; [lia|].
  rewrite (IH (x + z)), (IH (0 + z)). lia.
Qed.

Lemma py_sum_nil : py_sum [] = 0.
Proof. reflexivity. Qed.

Lemma py_sum_cons (z : Z) (zs : list Z) : py_sum (z :: zs) = z + py_sum zs.
Proof. unfold py_sum at 1. cbn [fold_left]. rewrite fold_add_shift. lia. Qed.

Lemma py_sum_app (zs zs' : list Z) : py_sum (zs ++ zs') = py_sum zs + py_sum zs'.
Proof.
  induction zs as [|z zs IH]; [done|]. simpl. rewrite !py_sum_cons, IH. lia.
Qed.

Lemma py_sum_map_ext {A : Type} (f g : A → Z) (l : list A) :
  (∀ x, In x l → f x = g x) → py_sum (map f l) = py_sum (map g l).
Proof.
  induction l as [|x l IH]; intros H; [done|]. simpl. rewrite !py_sum_cons.
  rewrite (H x), IH; [done| |by left]. intros y Hy. apply H. by right.
Qed.

Lemma py_sum_map_add {A : Type} (f g : A → Z) (l : list A) :
  py_sum (map (fun x => f x + g x) l) = py_sum (map f l) + py_sum (map g l).
Proof.
  induction l as [|x l IH]; [done|]. simpl. rewrite !py_sum_cons, IH. lia.
Qed.

Lemma py_sum_map_zero {A : Type} (l : list A) : py_sum (map (fun _ => 0) l) = 0.
Proof. induction l as [|x l IH]; [done|]. simpl. by rewrite py_sum_cons, IH. Qed.

Lemma py_sum_nonneg (zs : list Z) : Forall (fun z => 0 ≤ z) zs → 0 ≤ py_sum zs.
Proof.
  induction 1 as [|z zs Hz _ IH]; [done|]. rewrite py_sum_cons. lia.
Qed.

(** A filtered sum is the sum with the dropped terms at zero. *)
Lemma py_sum_filter {A : Type} (f : A → Z) (keep : A → bool) (l : list A) :
  py_sum (map f (List.filter keep l))
  = py_sum (map (fun x => if keep x then f x else 0) l).
Proof.
  induction l as [|x l IH]; [done|]. simpl.
  destruct (keep x); simpl; rewrite !py_sum_cons, IH; lia.
Qed.

(** The two sums of a double sum can change places. *)
Lemma py_sum_swap {A B : Type} (f : A → B → Z) (l : list A) (m : list B) :
  py_sum (map (fun x => py_sum (map (f x) m)) l)
  = py_sum (map (fun y => py_sum (map (fun x => f x y) l)) m).
Proof.
  induction l as [|x l IH]; simpl.
  - symmetry. apply py_sum_map_zero.
  - rewrite py_sum_cons, IH, <- py_sum_map_add.
    apply py_sum_map_ext. intros y _. by rewrite py_sum_cons.
Qed.

(** The loop that adds [f s] for every element is the sum of the [f s]. *)
Lemma fold_left_add_map {A : Type} (f : A → Z) (l : list A) (x : Z) :
  fold_left (fun count s => count + f s) l x = x + py_sum (map f l).
Proof.
  revert x. induction l as [|s l IH]; intros x; simpl; [rewrite py_sum_nil; lia|].
  rewrite IH, py_sum_cons. lia.
Qed.

Lemma list_count_app (x : string) (l l' : list string) :
  list_count x (l ++ l') = list_count x l + list_count x l'.
Proof. induction l as [|y l IH]; simpl; [done|]. rewrite IH. lia. Qed.

Lemma enumerate_from_bounds {A : Type} (k i : Z) (x : A) (l : list A) :
  In (i, x) (enumerate_from k l) → k ≤ i < k + len l.
Proof.
  revert k. induction l as [|y l IH]; intros k; simpl; [done|].
  unfold len in *. simpl length.
  intros [[= <- <-]|Hin]; [lia|]. apply IH in Hin. lia.
Qed.

(** ** The clipped window, position by position *)

(** The occurrences of [b] in a clipped window are the positions [j] of
    the sentence that hold [b] and lie in the window. *)
Lemma count_clipped_positions (b : string) (l : list string) (k lo hi : Z) :
  list_count b (clipped l (lo - k) (hi - k))
  = py_sum (map (fun jw : Z * string =>
                   if String.eqb (snd jw) b && (lo <=? fst jw) && (fst jw <? hi)
                   then 1 else 0)
                (enumerate_from k l)).
Proof.
  revert k. induction l as [|x l IH]; intros k.
  - unfold clipped. rewrite skipn_nil, firstn_nil. reflexivity.
  - simpl enumerate_from. simpl map. rewrite py_sum_cons, <- IH. simpl fst. simpl snd.
    unfold clipped, len. simpl length.
    destruct (Z.leb_spec lo k) as [Hlo|Hlo]; destruct (Z.ltb_spec k hi) as [Hhi|Hhi];
      rewrite ?andb_true_r, ?andb_false_r.
    + rewrite (Z.max_l 0 (lo - k)), (Z.max_l 0 (lo - (k + 1))) by lia. simpl skipn.
      replace (Z.to_nat (Z.min (Z.of_nat (S (length l))) (hi - k) - 0))
        with (S (Z.to_nat (Z.min (Z.of_nat (length l)) (hi - (k + 1)) - 0))) by lia.
      reflexivity.
    + rewrite (Z.max_l 0 (lo - k)), (Z.max_l 0 (lo - (k + 1))) by lia.
      replace (Z.to_nat (Z.min (Z.of_nat (S (length l))) (hi - k) - 0)) with 0%nat by lia.
      replace (Z.to_nat (Z.min (Z.of_nat (length l)) (hi - (k + 1)) - 0)) with 0%nat by lia.
      done.
    + rewrite (Z.max_r 0 (lo - k)), (Z.max_r 0 (lo - (k + 1))) by lia.
      replace (Z.to_nat (lo - k)) with (S (Z.to_nat (lo - (k + 1)))) by lia.
      simpl skipn.
      replace (Z.min (Z.of_nat (S (length l))) (hi - k) - (lo - k))
        with (Z.min (Z.of_nat (length l)) (hi - (k + 1)) - (lo - (k + 1))) by lia.
      lia.
    + rewrite (Z.max_r 0 (lo - k)), (Z.max_r 0 (lo - (k + 1))) by lia.
      replace (Z.to_nat (lo - k)) with (S (Z.to_nat (lo - (k + 1)))) by lia.
      simpl skipn.
      replace (Z.min (Z.of_nat (S (length l))) (hi - k) - (lo - k))
        with (Z.min (Z.of_nat (length l)) (hi - (k + 1)) - (lo - (k + 1))) by lia.
      lia.
Qed.

(** ** Where the code's windows are the clipped windows *)

(** The right slice [s[i+1:i+1+w]] is clipped, whatever the position. *)
Lemma py_slice_right_clipped {A : Type} (s : list A) (i w : Z) :
  0 ≤ i → 0 ≤ w → py_slice s (i + 1) (i + 1 + w) = clipped s (i + 1) (i + 1 + w).
Proof.
  intros Hi Hw. unfold py_slice, clipped, slice_bound.
  destruct (Z.ltb_spec (i + 1) 0); [lia|].
  destruct (Z.ltb_spec (i + 1 + w) 0); [lia|].
  rewrite (Z.max_r 0 (i + 1)) by lia.
  destruct (Z.le_gt_cases (i + 1) (len s)) as [Hin|Hout].
  - rewrite (Z.min_l (i + 1)) by lia. f_equal. lia.
  - rewrite !skipn_all2 by (unfold len in *; lia). by rewrite !firstn_nil.
Qed.

(** The left slice [s[i-w:i]] is clipped when its start is not negative,
    when the target is at position 0, and when the window is longer
    than the sentence and the position together. *)
Lemma py_slice_left_clipped {A : Type} (s : list A) (i w : Z) :
  0 ≤ i → w ≤ i ∨ i = 0 ∨ len s + i ≤ w →
  py_slice s (i - w) i = clipped s (i - w) i.
Proof.
  intros Hi Hcase. unfold py_slice, clipped, slice_bound.
  destruct (Z.ltb_spec i 0); [lia|].
  pose proof (len_nonneg s) as Hlen.
  destruct (Z.ltb_spec (i - w) 0) as [Hneg|Hpos].
  - rewrite (Z.max_l 0 (i - w)) by lia.
    destruct Hcase as [?|[->|Hlong]]; [lia| |].
    + rewrite (Z.min_l 0), (Z.min_r (len s) 0) by lia.
      replace (Z.to_nat (0 - Z.max 0 (0 - w + len s))) with 0%nat by lia.
      by rewrite !firstn_O.
    + rewrite (Z.max_l 0 (i - w + len s)) by lia. f_equal. lia.
  - rewrite (Z.max_r 0 (i - w)) by lia.
    destruct (Z.le_gt_cases (i - w) (len s)) as [Hin|Hout].
    + rewrite (Z.min_l (i - w)) by lia. f_equal. lia.
    + rewrite !skipn_all2 by (unfold len in *; lia). by rewrite !firstn_nil.
Qed.

(** Otherwise, when the sentence is long enough, the left slice is
    empty: the negative start wraps to the end of the sentence. *)
Lemma py_slice_left_wraps {A : Type} (s : list A) (i w : Z) :
  0 ≤ i → i < w → w ≤ len s → py_slice s (i - w) i = [].
Proof.
  intros Hi Hw Hlen. unfold py_slice, slice_bound.
  destruct (Z.ltb_spec i 0); [lia|].
  destruct (Z.ltb_spec (i - w) 0); [|lia].
  replace (Z.to_nat (Z.min i (len s) - Z.max 0 (i - w + len s))) with 0%nat by lia.
  apply firstn_O.
Qed.

(** ** The clipped count as a count of pairs of positions *)

Lemma get_cooccurance_count_sum (w : Z) (a b : string) (ss : list (list string)) :
  get_cooccurance_count w a b ss
  = py_sum (map (fun s =>
      py_sum (map (fun iw : Z * string =>
                     list_count b (py_slice s (fst iw - w) (fst iw)
                                   ++ py_slice s (fst iw + 1) (fst iw + 1 + w)))
                  (List.filter (fun iw : Z * string => String.eqb (snd iw) a)
                               (enumerate s)))) ss).
Proof. unfold get_cooccurance_count. rewrite fold_left_add_map. lia. Qed.

(** For one sentence, the clipped count is the number of pairs of
    positions that hold the target and the neighbor within the window. *)
Lemma clipped_sentence_pairs (w : Z) (a b : string) (s : list string) :
  py_sum (map (fun iw : Z * string =>
                 list_count b (clipped s (fst iw - w) (fst iw))
                 + list_count b (clipped s (fst iw + 1) (fst iw + 1 + w)))
              (List.filter (fun iw : Z * string => String.eqb (snd iw) a)
                           (enumerate s)))
  = py_sum (map (fun p => py_sum (map (near_pair w a b p) (enumerate s)))
                (enumerate s)).
Proof.
  rewrite py_sum_filter. apply py_sum_map_ext. intros [i x] _. simpl.
  replace (clipped s (i - w) i) with (clipped s (i - w - 0) (i - 0))
    by (f_equal; lia).
  replace (clipped s (i + 1) (i + 1 + w)) with (clipped s (i + 1 - 0) (i + 1 + w - 0))
    by (f_equal; lia).
  rewrite !count_clipped_positions. fold (@enumerate string s).
  destruct (String.eqb x a) eqn:Ex.
  - rewrite <- py_sum_map_add. apply py_sum_map_ext. intros [j y] _.
    unfold near_pair. simpl. rewrite Ex. simpl.
    destruct (String.eqb y b); simpl; [|done].
    destruct (Z.leb_spec (i - w) j), (Z.ltb_spec j i),
             (Z.leb_spec (i + 1) j), (Z.ltb_spec j (i + 1 + w)); simpl; lia.
  - symmetry. erewrite py_sum_map_ext; [apply py_sum_map_zero|].
    intros [j y] _. unfold near_pair. simpl. by rewrite Ex.
Qed.

Lemma near_pair_sym (w : Z) (a b : string) (p q : Z * string) :
  near_pair w a b p q = near_pair w b a q p.
Proof.
  unfold near_pair. destruct p as [i x], q as [j y]. simpl.
  destruct (String.eqb x a), (String.eqb y b); simpl; try done.
  destruct (Z.leb_spec (i - w) j), (Z.ltb_spec j i),
           (Z.leb_spec (i + 1) j), (Z.ltb_spec j (i + 1 + w)),
           (Z.leb_spec (j - w) i), (Z.ltb_spec i j),
           (Z.leb_spec (j + 1) i), (Z.ltb_spec i (j + 1 + w)); simpl; lia.
Qed.

(** The clipped count of the specification is symmetric in the two
    words, for every window. *)
Lemma cooccurance_clipped_sym (w : Z) (a b : string) (ss : list (list string)) :
  cooccurance_clipped w a b ss = cooccurance_clipped w b a ss.
Proof.
  unfold cooccurance_clipped. apply py_sum_map_ext. intros s _.
  rewrite !clipped_sentence_pairs, py_sum_swap.
  apply py_sum_map_ext. intros q _. apply py_sum_map_ext. intros p _.
  apply near_pair_sym.
Qed.

(** ** Windows of at most one word *)

(** With a window of at most one word on each side the code counts
    exactly the clipped windows: the left slice never starts at a
    negative index behind position 0. *)
Theorem get_cooccurance_count_narrow_window (w : Z) (a b : string)
    (ss : list (list string)) :
  0 ≤ w ≤ 1 →
  get_cooccurance_count w a b ss = cooccurance_clipped w a b ss.
Proof.
  intros Hw. rewrite get_cooccurance_count_sum. unfold cooccurance_clipped.
  apply py_sum_map_ext. intros s _. apply py_sum_map_ext. intros [i x] Hin. simpl.
  apply filter_In in Hin as [Hin _]. apply enumerate_from_bounds in Hin.
  rewrite list_count_app, py_slice_right_clipped, py_slice_left_clipped by lia.
  reflexivity.
Qed.

Lemma get_cooccurance_count_narrow_window_witness :
  0 ≤ 1 ≤ 1
  ∧ get_cooccurance_count 1 "like" "NLP" [["I"; "like"; "NLP"]]
    = cooccurance_clipped 1 "like" "NLP" [["I"; "like"; "NLP"]].
Proof.
  split; [lia|].
  apply (get_cooccurance_count_narrow_window 1 "like" "NLP" [["I"; "like"; "NLP"]]). lia.
Defined.

(** With a window of at most one word the count of [b] around [a] is
    the count of [a] around [b]. *)
Theorem get_cooccurance_count_sym_narrow (w : Z) (a b : string)
    (ss : list (list string)) :
  0 ≤ w ≤ 1 →
  get_cooccurance_count w a b ss = get_cooccurance_count w b a ss.
Proof.
  intros Hw. rewrite !get_cooccurance_count_narrow_window by done.
  apply cooccurance_clipped_sym.
Qed.

Lemma get_cooccurance_count_sym_narrow_witness :
  0 ≤ 1 ≤ 1
  ∧ get_cooccurance_count 1 "like" "NLP" [["I"; "like"; "NLP"]]
    = get_cooccurance_count 1 "NLP" "like" [["I"; "like"; "NLP"]].
Proof.
  split; [lia|].
  apply (get_cooccurance_count_sym_narrow 1 "like" "NLP" [["I"; "like"; "NLP"]]). lia.
Defined.

(** The count over a corpus is the sum of the counts of its parts, and
    it is never negative. *)
Lemma list_count_nonneg (x : string) (l : list string) : 0 ≤ list_count x l.
Proof. induction l as [|y l IH]; simpl; [done|]. destruct (String.eqb y x); lia. Qed.

Theorem get_cooccurance_count_app (w : Z) (a b : string)
    (ss1 ss2 : list (list string)) :
  get_cooccurance_count w a b (ss1 ++ ss2)
  = get_cooccurance_count w a b ss1 + get_cooccurance_count w a b ss2
  ∧ 0 ≤ get_cooccurance_count w a b ss1.
Proof.
  rewrite !get_cooccurance_count_sum, map_app, py_sum_app. split; [done|].
  apply py_sum_nonneg, List.Forall_forall. intros z Hz.
  apply in_map_iff in Hz as (s & <- & _).
  apply py_sum_nonneg, List.Forall_forall. intros z Hz.
  apply in_map_iff in Hz as (iw & <- & _). apply list_count_nonneg.
Qed.

(** ** Words that begin with an exception *)

(** The exception pattern is matched at the start of the word only, so
    every word that begins with a listed exception word, its first
    letter in either case, is returned unchanged, whatever follows. *)
Theorem stem_exception_prefix (w rest : string) :
  In w listed_exceptions →
  stem (w +:+ rest) = Ok (w +:+ rest)
  ∧ stem (capitalize w +:+ rest) = Ok (capitalize w +:+ rest).
Proof.
  intros Hin. unfold listed_exceptions in Hin. simpl in Hin.
  repeat (destruct Hin as [<- | Hin]; [split; vm_compute; reflexivity|]).
  destruct Hin.
Qed.

Lemma stem_exception_prefix_witness :
  In "string" listed_exceptions
  ∧ stem ("string" +:+ "ing") = Ok ("string" +:+ "ing")
  ∧ stem (capitalize "string" +:+ "ing") = Ok (capitalize "string" +:+ "ing").
Proof.
  assert (In "string" listed_exceptions) as H by (simpl; tauto).
  split; [exact H|]. apply (stem_exception_prefix "string" "ing"). exact H.
Defined.

(** ** Merging more than two tables *)

(** Merging is associative and the empty table is neutral on both
    sides, so partial tables can be merged in any grouping. *)
Theorem merge_tokens_assoc (a b c : gmap string Z) :
  merge_tokens (merge_tokens a b) c = merge_tokens a (merge_tokens b c)
  ∧ merge_tokens a ∅ = a
  ∧ merge_tokens ∅ a = a.
Proof.
  split; [|split]; apply map_eq; intros k; rewrite !merge_tokens_lookup;
    rewrite ?lookup_empty; unfold merged;
    destruct (a !! k), (b !! k), (c !! k); simpl; f_equal; lia.
Qed.

(** ** Unigrams *)

Lemma join_single (sep w : string) : join sep [w] = w.
Proof. reflexivity. Qed.

(** The 1-grams of a text are its words, in order, so joining them by
    single spaces gives the text back. *)
Theorem n_gram_unigrams (s : string) :
  n_gram 1 s = words_of s ∧ join " " (n_gram 1 s) = s.
Proof.
  assert (n_gram 1 s = words_of s) as E; [|by rewrite E, join_words_of].
  apply nth_error_ext. intros i. unfold n_gram.
  set (words := words_of s).
  rewrite !nth_error_map.
  replace (len words - (1 - 1)) with (len words) by lia.
  destruct (Nat.lt_ge_cases i (length words)) as [Hi|Hi].
  - replace i with (Z.to_nat (Z.of_nat i)) at 1 by lia.
    rewrite py_range_nth by (unfold len; lia). simpl.
    rewrite py_slice_inside by (unfold len; lia).
    replace (Z.to_nat (Z.of_nat i + 1 - Z.of_nat i)) with 1%nat by lia.
    rewrite Nat2Z.id.
    destruct (nth_error words i) as [w|] eqn:Ew.
    + apply nth_error_split in Ew as (l1 & l2 & -> & <-).
      rewrite skipn_app, skipn_all, Nat.sub_diag. simpl. reflexivity.
    + apply nth_error_None in Ew. lia.
  - rewrite (proj2 (nth_error_None words i)) by done.
    rewrite (proj2 (nth_error_None (py_range (len words)) i)); [done|].
    pose proof (py_range_length (len words)) as Hl. unfold len in *. lia.
Qed.

(** ** The sign of tf-idf *)

(** A returned tf-idf is never negative, and it is zero when the
    document does not contain the term. *)
Theorem tfidf_nonneg (term : string) (doc : list string) (docs : list (list string))
    (r : R) :
  tfidf term doc docs = Ok r →
  (0 <= r)%R ∧ (list_count term doc = 0 → r = 0%R).
Proof.
  unfold tfidf, float_div.
  destruct (Z.eqb_spec (len doc) 0) as [|Hdoc]; [intros [=]|]. simpl.
  set (df := len (List.filter (fun d => list_mem term d) docs)).
  destruct (Z.eqb_spec df 0) as [|Hdf]; [intros [=]|]. simpl.
  unfold math_log. destruct (Rle_dec _ _) as [|Hlog]; [intros [=]|]. simpl.
  intros [= <-].
  pose proof (len_nonneg doc) as Hl. pose proof (len_nonneg docs) as Hd.
  pose proof (len_nonneg (List.filter (fun d => list_mem term d) docs)) as Hf.
  fold df in Hf.
  pose proof (list_count_nonneg term doc) as Hc.
  assert (0 < IZR (len doc))%R by (apply IZR_lt; lia).
  assert (0 < IZR df)%R by (apply IZR_lt; lia).
  assert (0 <= IZR (list_count term doc))%R by (apply IZR_le; lia).
  assert (0 <= IZR (len docs))%R by (apply IZR_le; lia).
  assert (0 <= IZR (list_count term doc) / IZR (len doc))%R.
  { apply Rmult_le_pos; [done|]. left. by apply Rinv_0_lt_compat. }
  assert (0 <= IZR (len docs) / IZR df)%R.
  { apply Rmult_le_pos; [done|]. left. by apply Rinv_0_lt_compat. }
  assert (0 <= ln (1 + IZR (len docs) / IZR df))%R.
  { rewrite <- ln_1. destruct (Req_dec (IZR (len docs) / IZR df) 0) as [->|Hne].
    - rewrite Rplus_0_r. apply Rle_refl.
    - left. apply ln_increasing; lra. }
  split.
  - by apply Rmult_le_pos.
  - intros ->. unfold Rdiv. by rewrite !Rmult_0_l.
Qed.

Lemma tfidf_nonneg_witness :
  tfidf "b" ["a"] [["a"]; ["b"]] = Ok (IZR 0 / IZR 1 * ln (1 + IZR 2 / IZR 1))%R
  ∧ (0 <= IZR 0 / IZR 1 * ln (1 + IZR 2 / IZR 1))%R.
Proof.
  assert (tfidf "b" ["a"] [["a"]; ["b"]]
          = Ok (IZR 0 / IZR 1 * ln (1 + IZR 2 / IZR 1))%R) as H.
  { unfold tfidf, float_div, math_log. simpl.
    destruct (Rle_dec _ _) as [Hle|_]; [|reflexivity].
    exfalso. change (len [["a"]; ["b"]]) with 2 in Hle.
    change (len [["b"]]) with 1 in Hle. lra. }
  split; [exact H|]. exact (proj1 (tfidf_nonneg "b" ["a"] [["a"]; ["b"]] _ H)).
Defined.

(** ** The vocabulary of a corpus *)

Section Vocabulary.
Implicit Types (t : list string) (w : string).

Lemma add_token_NoDup t w : List.NoDup t → List.NoDup (add_token t w).
Proof.
  intros Ht. unfold add_token. destruct (list_mem w t) eqn:E; simpl; [done|].
  apply NoDup_ListNoDup. apply NoDup_ListNoDup in Ht.
  apply NoDup_app. split; [done|]. split; [|apply NoDup_singleton].
  intros x Hx Hw. apply list_elem_of_In in Hx. apply list_elem_of_In in Hw.
  destruct Hw as [Hw|[]]. subst x. apply list_mem_In in Hx. congruence.
Qed.

Lemma add_token_In t w x : In x (add_token t w) ↔ In x t ∨ x = w.
Proof.
  unfold add_token. destruct (list_mem w t) eqn:E; simpl.
  - apply list_mem_In in E. split; [by left|]. intros [H | H]; [done|by subst].
  - rewrite in_app_iff. simpl. split.
    + intros [H | [H | []]]; [by left|by right].
    + intros [H | H]; [by left|right; by left].
Qed.

Lemma add_tokens_NoDup (sentence : list string) t :
  List.NoDup t → List.NoDup (fold_left add_token sentence t).
Proof.
  revert t. induction sentence as [|w s IH]; intros t Ht; [done|].
  simpl. by apply IH, add_token_NoDup.
Qed.

Lemma add_tokens_In (sentence : list string) t x :
  In x (fold_left add_token sentence t) ↔ In x t ∨ In x sentence.
Proof.
  revert t. induction sentence as [|w s IH]; intros t; simpl; [tauto|].
  rewrite IH, add_token_In. intuition.
Qed.

Lemma tokens_loop (sentences : list (list string)) t :
  List.NoDup t →
  List.NoDup (fold_left (fun t s => fold_left add_token s t) sentences t)
  ∧ ∀ w, In w (fold_left (fun t s => fold_left add_token s t) sentences t)
         ↔ In w t ∨ ∃ s, In s sentences ∧ In w s.
Proof.
  revert t. induction sentences as [|s ss IH]; intros t Ht; simpl.
  - split; [done|]. intros w. split; [by left|]. intros [H | (s & [] & _)]. done.
  - destruct (IH (fold_left add_token s t) (add_tokens_NoDup s t Ht)) as [Hn Hi].
    split; [done|]. intros w. rewrite Hi, add_tokens_In. split.
    + intros [[H | H] | (s' & H1 & H2)];
        [by left|right; exists s; auto|right; exists s'; auto].
    + intros [H | (s' & [H1 | H1] & H2)];
        [left; by left|subst s'; left; by right|right; exists s'; auto].
Qed.
End Vocabulary.

(** The vocabulary has no duplicates, and its words are exactly the
    words of the sentences. *)
Theorem tokens_vocabulary (sentences : list (list string)) :
  List.NoDup (tokens sentences)
  ∧ ∀ w, In w (tokens sentences) ↔ ∃ s, In s sentences ∧ In w s.
Proof.
  destruct (tokens_loop sentences [] (List.NoDup_nil _)) as [Hn Hi].
  split; [exact Hn|].
  intros w. unfold tokens. rewrite Hi. split; [intros [[] | H]; done|by right].
Qed.

(** ** Skip-grams of two and three words *)

Section SkipGrams.
Context {A B : Type}.

Lemma traverse_ok (f : A → result B) (g : A → B) (l : list A) :
  (∀ x, In x l → f x = Ok (g x)) → traverse f l = Ok (map g l).
Proof.
  induction l as [|x l IH]; intros H; simpl; [done|].
  rewrite (H x) by (by left). simpl.
  rewrite IH by (intros y Hy; apply H; by right). reflexivity.
Qed.

Lemma py_index_nth (l : list A) (i : Z) (d : A) :
  0 ≤ i < len l → py_index l i = Ok (nth (Z.to_nat i) l d).
Proof.
  intros Hi. apply py_index_inside; [lia|].
  apply nth_error_nth'. unfold len in Hi. lia.
Qed.
End SkipGrams.

Lemma py_range_In (n i : Z) : In i (py_range n) → 0 ≤ i < n.
Proof.
  unfold py_range. rewrite in_map_iff. intros (t & <- & Ht).
  apply in_seq in Ht. lia.
Qed.

Lemma py_range3_pair (k : Z) : 0 ≤ k → py_range3 1 (2 + k) (k + 1) = Ok [1].
Proof.
  intros Hk. unfold py_range3.
  destruct (Z.eqb_spec (k + 1) 0); [lia|].
  destruct (Z.ltb_spec 0 (k + 1)); [|lia].
  assert ((2 + k - 1 + (k + 1) - 1) / (k + 1) = 1) as ->.
  { symmetry. apply (Z.div_unique _ _ 1 k); lia. }
  reflexivity.
Qed.

Lemma py_range3_triple (k : Z) : 0 ≤ k → py_range3 1 (3 + k) (k + 1) = Ok [1; k + 2].
Proof.
  intros Hk. unfold py_range3.
  destruct (Z.eqb_spec (k + 1) 0); [lia|].
  destruct (Z.ltb_spec 0 (k + 1)); [|lia].
  assert ((3 + k - 1 + (k + 1) - 1) / (k + 1) = 2) as ->.
  { symmetry. apply (Z.div_unique _ _ 2 0); lia. }
  simpl. do 3 f_equal. lia.
Qed.

(** With a skip that is not negative, the skip-grams of two and of three
    words are the ones the specification describes, and nothing is
    raised. *)
Theorem skip_gram_two_three (k n : Z) (s : string) :
  0 ≤ k → n = 2 ∨ n = 3 → skip_gram k n s = Ok (skip_gram_spec k n s).
Proof.
  intros Hk Hn. unfold skip_gram, skip_gram_spec.
  set (words := words_of s).
  replace ((1 + k) * (n - 1)) with ((n - 1) * (k + 1)) by lia.
  rewrite (traverse_ok _
    (fun i => map (fun t => nth (Z.to_nat (i + t * (k + 1))) words EmptyString)
                  (py_range n))).
  { simpl. by rewrite map_map. }
  intros i Hi%py_range_In.
  destruct Hn as [-> | ->].
  - rewrite (py_index_nth words i EmptyString) by lia. simpl.
    rewrite py_range3_pair by done. simpl.
    rewrite (py_index_nth words (i + k + 1) EmptyString) by lia. simpl.
    replace (i + Z.of_nat 0 * (k + 1)) with i by lia.
    replace (i + Z.of_nat 1 * (k + 1)) with (i + k + 1) by lia.
    reflexivity.
  - rewrite (py_index_nth words i EmptyString) by lia. simpl.
    rewrite py_range3_triple by done. simpl.
    rewrite (py_index_nth words (i + k + 1) EmptyString) by lia. simpl.
    rewrite (py_index_nth words (i + k + (k + 2)) EmptyString) by lia. simpl.
    replace (i + Z.of_nat 0 * (k + 1)) with i by lia.
    replace (i + Z.of_nat 1 * (k + 1)) with (i + k + 1) by lia.
    replace (i + Z.of_nat 2 * (k + 1)) with (i + k + (k + 2)) by lia.
    reflexivity.
Qed.

Lemma skip_gram_two_three_witness :
  skip_gram 2 3 "the rain in Spain falls mainly on the plain"
  = Ok ["the Spain on"; "rain falls the"; "in mainly plain"].
Proof.
  apply (skip_gram_two_three 2 3 "the rain in Spain falls mainly on the plain").
  - lia.
  - right. reflexivity.
Defined.

(** ** Skip-grams of one word *)

Section Raising.
Context {A B : Type}.

Lemma traverse_raises (f : A → result B) (l : list A) (e : exn) :
  (∀ x, In x l → f x = Raise e ∨ ∃ y, f x = Ok y) →
  (∃ x, In x l ∧ f x = Raise e) →
  traverse f l = Raise e.
Proof.
  induction l as [|x l IH]; intros Hall (x0 & Hin & Hx0); [destruct Hin|].
  simpl. destruct (Hall x (or_introl eq_refl)) as [-> | (y & Hy)]; [done|].
  rewrite Hy. simpl. rewrite IH; [done| |].
  - intros z Hz. apply Hall. by right.
  - destruct Hin as [<- | Hin]; [congruence|]. by exists x0.
Qed.

Lemma py_index_cases (l : list A) (i : Z) :
  py_index l i = Raise IndexError ∨ ∃ x, py_index l i = Ok x.
Proof.
  unfold py_index. destruct (_ <? 0); [by left|].
  destruct (nth_error _ _) as [x|]; [right; by exists x|by left].
Qed.

Lemma py_index_beyond (l : list A) (i : Z) :
  len l ≤ i → py_index l i = Raise IndexError.
Proof.
  intros Hi. pose proof (len_nonneg l) as Hl. unfold py_index.
  destruct (Z.ltb_spec i 0); [lia|].
  destruct (Z.ltb_spec i 0); [lia|].
  assert (nth_error l (Z.to_nat i) = None) as ->; [|done].
  apply nth_error_None. unfold len in Hi. lia.
Qed.
End Raising.

Lemma py_range3_single (k : Z) : 1 ≤ k → py_range3 1 (1 + k) (k + 1) = Ok [1].
Proof.
  intros Hk. unfold py_range3.
  destruct (Z.eqb_spec (k + 1) 0); [lia|].
  destruct (Z.ltb_spec 0 (k + 1)); [|lia].
  assert ((1 + k - 1 + (k + 1) - 1) / (k + 1) = 1) as ->.
  { symmetry. apply (Z.div_unique _ _ 1 (k - 1)); lia. }
  reflexivity.
Qed.

(** With [n = 1] and a skip of one or more, the inner range still yields
    one offset, so every entry reads a second word, [k + 1] places on:
    the last start reads beyond the text, and the call raises. *)
Theorem skip_gram_one_word_raises (k : Z) (s : string) :
  1 ≤ k → skip_gram k 1 s = Raise IndexError.
Proof.
  intros Hk. unfold skip_gram.
  set (words := words_of s).
  pose proof (wordCount_pos s) as Hpos. unfold wordCount in Hpos. fold words in Hpos.
  rewrite py_range3_single by done.
  rewrite (traverse_raises _ _ IndexError); [done| |].
  - intros i Hi%py_range_In.
    rewrite (py_index_nth words i EmptyString) by lia. simpl.
    destruct (py_index_cases words (i + k + 1)) as [-> | (x & ->)]; [by left|].
    right. by eexists.
  - exists (len words - 1). split.
    + apply (nth_error_In _ (Z.to_nat (len words - 1))).
      replace (len words - (1 + k) * (1 - 1)) with (len words) by lia.
      apply py_range_nth. lia.
    + rewrite (py_index_nth words _ EmptyString) by lia. simpl.
      rewrite py_index_beyond by lia. reflexivity.
Qed.

Lemma skip_gram_one_word_raises_witness :
  skip_gram 1 1 "the rain in Spain" = Raise IndexError.
Proof. apply (skip_gram_one_word_raises 1 "the rain in Spain"). lia. Defined.
